(** * Shallow embedding of nxc/helpers/bloodhound.py

    The two public operations [mark_web_client_enabled] and [add_user_bh],
    their helpers, the Neo4j transaction they run in and the BloodHound
    graph they query and update.

    Modelling choices:
    - Python [str] is a Rocq [string]; [str.upper] is modelled on ASCII.
    - The graph is a list of domain nodes and a list of User/Computer
      nodes, in the order Neo4j returns them; a node's assessment
      properties are an association list (first binding wins), a missing
      property reads as [None].
    - Every Cypher request the code sends is recorded, in order, in a
      trace; the f-string text of a request is represented by a
      constructor of [req] carrying its interpolated values.
    - The Neo4j driver is an external collaborator: whether a request
      fails, and with which Neo4j error, is an oracle of the world
      ([w_faults], indexed by the number of requests sent so far); whether
      [GraphDatabase.driver] itself fails is [w_drvfault].
    - [with session.begin_transaction() as tx] commits on normal exit and
      discards the transaction's changes when the block raises. *)

From Stdlib Require Import String Ascii List Bool Arith Lia.
Import ListNotations.
Open Scope list_scope.
Open Scope string_scope.

(** ** Python string operations *)

(** [c.upper()] on one ASCII character. *)
Definition upper_ascii (c : ascii) : ascii :=
  let n := nat_of_ascii c in
  if (97 <=? n)%nat && (n <=? 122)%nat then ascii_of_nat (n - 32)%nat else c.

(** [s.upper()] *)
Fixpoint upper (s : string) : string :=
  match s with
  | EmptyString => EmptyString
  | String c s' => String (upper_ascii c) (upper s')
  end.

(** [s.split(".")]: the current piece is accumulated in [cur]. *)
Fixpoint split_dot_aux (s cur : string) : list string :=
  match s with
  | EmptyString => [cur]
  | String c s' =>
      if Ascii.eqb c "." then cur :: split_dot_aux s' ""
      else split_dot_aux s' (cur ++ String c "")
  end.

Definition split_dot (s : string) : list string := split_dot_aux s "".

(** [s.rstrip(",")] *)
Fixpoint rstrip_comma (s : string) : string :=
  match s with
  | EmptyString => EmptyString
  | String c s' =>
      let r := rstrip_comma s' in
      match r with
      | EmptyString => if Ascii.eqb c "," then EmptyString else String c EmptyString
      | _ => String c r
      end
  end.

(** [s[-1]]: [None] is the [IndexError] of the empty string. *)
Fixpoint last_char (s : string) : option ascii :=
  match s with
  | EmptyString => None
  | String c EmptyString => Some c
  | String _ s' => last_char s'
  end.

(** [s[:-1]] *)
Fixpoint drop_last (s : string) : string :=
  match s with
  | EmptyString => EmptyString
  | String _ EmptyString => EmptyString
  | String c s' => String c (drop_last s')
  end.

(** [distinguished_name = "".join([f"DC={dc}," for dc in domain.split(".")]).rstrip(",")] *)
Definition distinguished_name_of (domain : string) : string :=
  rstrip_comma (fold_right append "" (map (fun dc => "DC=" ++ dc ++ ",") (split_dot domain))).

(** ** Data: account records and the graph *)

(** The dictionaries [{"username": ..., "domain": ...}]. *)
Record account := mkAccount { username : string; acc_domain : string }.

(** The [user]/[machine_account] argument: a [str] or a [list] of dicts. *)
Inductive account_input :=
| InStr (s : string)
| InList (l : list account).

(** A [(d:Domain)] node: [d.get("name")] may be [None]. *)
Record domnode := mkDom { d_name : option string; d_dn : string }.

(** A [(c:User)] or [(c:Computer)] node. *)
Record node := mkNode { n_label : string; n_name : string; n_props : list (string * bool) }.

Record graph := mkGraph { g_domains : list domnode; g_nodes : list node }.

Fixpoint prop_lookup (p : string) (ps : list (string * bool)) : option bool :=
  match ps with
  | [] => None
  | (k, v) :: ps' => if String.eqb k p then Some v else prop_lookup p ps'
  end.

(** [c.get(p)] *)
Definition node_get (n : node) (p : string) : option bool := prop_lookup p (n_props n).

(** [SET c.p = v] on one node. *)
Definition node_set (n : node) (p : string) (v : bool) : node :=
  mkNode (n_label n) (n_name n) ((p, v) :: n_props n).

(** [x in (False, None)] for a stored boolean property. *)
Definition false_or_none (v : option bool) : bool :=
  match v with None | Some false => true | Some true => false end.

(** [MATCH (d:Domain) WHERE d.distinguishedname STARTS WITH 'dn' RETURN d] *)
Definition domain_query (g : graph) (dn : string) : list domnode :=
  filter (fun d => String.prefix dn (d_dn d)) (g_domains g).

Definition is_exact (l nm : string) (n : node) : bool :=
  String.eqb (n_label n) l && String.eqb (n_name n) nm.

(** [MATCH (c:l {name:'nm'}) RETURN c] *)
Definition match_exact (g : graph) (l nm : string) : list node :=
  filter (is_exact l nm) (g_nodes g).

(** [MATCH (c:l) WHERE c.name STARTS WITH 'pfx' RETURN c] *)
Definition match_prefix (g : graph) (l pfx : string) : list node :=
  filter (fun n => String.eqb (n_label n) l && String.prefix pfx (n_name n)) (g_nodes g).

(** [MATCH (c:l {name:'nm'}) SET c.p=v RETURN c.name AS name]: the graph
    after the update and the returned names. *)
Definition set_exact (g : graph) (l nm p : string) (v : bool) : graph * list string :=
  (mkGraph (g_domains g)
     (map (fun n => if is_exact l nm n then node_set n p v else n) (g_nodes g)),
   map n_name (filter (is_exact l nm) (g_nodes g))).

(** ** Requests, exceptions, log messages *)

(** The Cypher requests sent through [tx] (and the transaction's begin and
    commit), with their interpolated values. *)
Inductive req :=
| RBegin                                  (* driver.session().begin_transaction() *)
| RDomain (dn : string)                   (* _does_domain_exist_in_bloodhound *)
| RMatchExact (label nm : string)         (* MATCH (c:label {name:'nm'}) RETURN c *)
| RMatchPrefix (label pfx : string)       (* MATCH (c:label) WHERE c.name STARTS WITH 'pfx' RETURN c *)
| RSet (label nm p : string) (v : bool)   (* MATCH (c:label {name:'nm'}) SET c.p=v RETURN c.name AS name *)
| RCommit.                                (* leaving the [with] block normally *)

(** Python exceptions that can reach the handlers. *)
Inductive exc :=
| AuthError            (* neo4j.exceptions.AuthError *)
| ServiceUnavailable   (* neo4j.exceptions.ServiceUnavailable *)
| Neo4jError           (* any other error of the Neo4j driver *)
| DriverError          (* GraphDatabase.driver(...) refusing its arguments *)
| IndexError
| TypeError
| ValueError
| NameError.

(** What the Neo4j driver may raise while serving a request. *)
Inductive dserr := DsAuth | DsUnavailable | DsOther.

Definition exc_of_dserr (e : dserr) : exc :=
  match e with DsAuth => AuthError | DsUnavailable => ServiceUnavailable | DsOther => Neo4jError end.

(** The [logger.fail] messages. *)
Inductive failmsg :=
| FComputerNotFound               (* "Computer not found in the BloodHound database" *)
| FAccountNotFound                (* "Account not found in the BloodHound database." *)
| FMultiple (name : string)       (* "Multiple accounts found with the name '...' ... Please specify the FQDN ex:domain.local" *)
| FNotMachine (name : string)     (* "Inputted account (...) is not a machine account" *)
| FBadCreds (user pass : string)  (* "Provided Neo4J credentials (...:...) are not valid." *)
| FUnavailable (uri : string)     (* "Neo4J does not seem to be available on ...." *)
| FUnexpected (e : exc).          (* "Unexpected error with Neo4J: {e}" *)

Inductive logmsg :=
| LDebugDomainNotFound (domain : string)  (* "Domain ... not found in BloodHound. Falling back to domainless query." *)
| LDebugQuery (q : req)                   (* the SET query text *)
| LFail (m : failmsg)
| LHighlightWebclient (name : string)     (* "Node ... successfully noted that webclient was running ..." *)
| LHighlightOwned (name : string).        (* "Node ... successfully set as owned in BloodHound" *)

Inductive drv := NoDriver | DriverOpen | DriverClosed.

(** ** The world and the state/exception monad *)

Record world := mkWorld {
  w_graph : graph;                    (* committed graph *)
  w_tx : graph;                       (* graph as seen inside the open transaction *)
  w_trace : list req;                 (* requests sent, in order *)
  w_log : list logmsg;                (* logger output, in order *)
  w_driver : drv;
  w_bound : option account;           (* the loop variable machine_info / user_info *)
  w_faults : nat -> option dserr;     (* the driver's answer to the n-th request *)
  w_drvfault : option exc             (* GraphDatabase.driver(...) raising *)
}.

Definition with_tx (w : world) (g : graph) : world :=
  mkWorld (w_graph w) g (w_trace w) (w_log w) (w_driver w) (w_bound w) (w_faults w) (w_drvfault w).
Definition with_graph (w : world) (g : graph) : world :=
  mkWorld g (w_tx w) (w_trace w) (w_log w) (w_driver w) (w_bound w) (w_faults w) (w_drvfault w).
Definition with_trace (w : world) (t : list req) : world :=
  mkWorld (w_graph w) (w_tx w) t (w_log w) (w_driver w) (w_bound w) (w_faults w) (w_drvfault w).
Definition with_log (w : world) (l : list logmsg) : world :=
  mkWorld (w_graph w) (w_tx w) (w_trace w) l (w_driver w) (w_bound w) (w_faults w) (w_drvfault w).
Definition with_driver (w : world) (d : drv) : world :=
  mkWorld (w_graph w) (w_tx w) (w_trace w) (w_log w) d (w_bound w) (w_faults w) (w_drvfault w).
Definition with_bound (w : world) (a : account) : world :=
  mkWorld (w_graph w) (w_tx w) (w_trace w) (w_log w) (w_driver w) (Some a) (w_faults w) (w_drvfault w).

Inductive result (A : Type) := Ok (a : A) | Raise (e : exc).
Arguments Ok {A} a.
Arguments Raise {A} e.

Definition M (A : Type) := world -> result A * world.

Definition ret {A} (a : A) : M A := fun w => (Ok a, w).
Definition raise {A} (e : exc) : M A := fun w => (Raise e, w).
Definition bind {A B} (m : M A) (f : A -> M B) : M B :=
  fun w => match m w with
           | (Ok a, w') => f a w'
           | (Raise e, w') => (Raise e, w')
           end.
Definition lift {A} (r : result A) : M A := fun w => (r, w).

Notation "x <- m ;; k" := (bind m (fun x => k)) (at level 61, m at next level, right associativity).

(** Sending a request: it is recorded, then the driver answers or raises. *)
Definition request (r : req) : M unit := fun w =>
  let w' := with_trace w (w_trace w ++ [r])%list in
  match w_faults w (length (w_trace w)) with
  | Some e => (Raise (exc_of_dserr e), w')
  | None => (Ok tt, w')
  end.

Definition get_tx : M graph := fun w => (Ok (w_tx w), w).
Definition put_tx (g : graph) : M unit := fun w => (Ok tt, with_tx w g).
Definition log (m : logmsg) : M unit := fun w => (Ok tt, with_log w (w_log w ++ [m])%list).
Definition bind_loopvar (a : account) : M unit := fun w => (Ok tt, with_bound w a).

(** [l[0]] *)
Definition first {A} (l : list A) : M A :=
  match l with x :: _ => ret x | [] => raise IndexError end.

Fixpoint for_each {A} (f : A -> M unit) (l : list A) : M unit :=
  match l with
  | [] => ret tt
  | x :: l' => _ <- f x;; for_each f l'
  end.

(** [tx.run(...).data()] for each request shape. *)
Definition run_domain (dn : string) : M (list domnode) :=
  _ <- request (RDomain dn);; g <- get_tx;; ret (domain_query g dn).

Definition run_match_exact (l nm : string) : M (list node) :=
  _ <- request (RMatchExact l nm);; g <- get_tx;; ret (match_exact g l nm).

Definition run_match_prefix (l pfx : string) : M (list node) :=
  _ <- request (RMatchPrefix l pfx);; g <- get_tx;; ret (match_prefix g l pfx).

Definition run_set (l nm p : string) (v : bool) : M (list string) :=
  _ <- request (RSet l nm p v);; g <- get_tx;;
  _ <- put_tx (fst (set_exact g l nm p v));; ret (snd (set_exact g l nm p v)).

(** ** The helpers of bloodhound.py *)

(** [_parse_user_or_machine_account(user_info, domain=None)]; the pair is
    [(user_owned, account_type)]. *)
Definition parse_user_or_machine_account (user_info : account) (domain : option string)
  : result (string * string) :=
  let u := username user_info in
  match last_char u with
  | None => Raise IndexError
  | Some c =>
      if Ascii.eqb c "$" then
        Ok (match domain with Some d => drop_last u ++ "." ++ d | None => drop_last u end,
            "Computer")
      else
        Ok (match domain with Some d => u ++ "@" ++ d | None => u end, "User")
  end.

(** [_adjust_webclient_property_with_domain] *)
Definition adjust_webclient_property_with_domain (machine_info : account) (domain : option string)
  : M unit :=
  p <- lift (parse_user_or_machine_account machine_info domain);;
  let '(webclient_enabled_machine, account_type) := p in
  result <- run_match_exact account_type webclient_enabled_machine;;
  match result with
  | [] => log (LFail FComputerNotFound)
  | c :: _ =>
      if false_or_none (node_get c "webclientrunning") then
        _ <- log (LDebugQuery (RSet account_type webclient_enabled_machine "webclientrunning" true));;
        names <- run_set account_type webclient_enabled_machine "webclientrunning" true;;
        name <- first names;;
        log (LHighlightWebclient name)
      else ret tt
  end.

(** [_adjust_webclient_property_without_domain]: in the [len(result) >= 2]
    branch the f-string evaluates [webclient_enabled_machine['username']],
    a [str] indexed by a [str], which raises [TypeError] before
    [logger.fail] is called. *)
Definition adjust_webclient_property_without_domain (machine_info : account) : M unit :=
  p <- lift (parse_user_or_machine_account machine_info None);;
  let '(webclient_enabled_machine, account_type) := p in
  result <- run_match_prefix account_type webclient_enabled_machine;;
  match result with
  | [] => log (LFail FAccountNotFound)
  | _ :: _ :: _ => raise TypeError
  | [c] =>
      if false_or_none (node_get c "webclientrunning") then
        _ <- log (LDebugQuery (RSet account_type (n_name c) "webclientrunning" true));;
        names <- run_set account_type (n_name c) "webclientrunning" true;;
        name <- first names;;
        log (LHighlightWebclient name)
      else ret tt
  end.

(** [_add_with_domain] *)
Definition add_with_domain (user_info : account) (domain : option string) : M unit :=
  p <- lift (parse_user_or_machine_account user_info domain);;
  let '(user_owned, account_type) := p in
  result <- run_match_exact account_type user_owned;;
  match result with
  | [] => log (LFail FAccountNotFound)
  | c :: _ =>
      if false_or_none (node_get c "owned") then
        _ <- log (LDebugQuery (RSet account_type user_owned "owned" true));;
        names <- run_set account_type user_owned "owned" true;;
        name <- first names;;
        log (LHighlightOwned name)
      else ret tt
  end.

(** [_add_without_domain] *)
Definition add_without_domain (user_info : account) : M unit :=
  p <- lift (parse_user_or_machine_account user_info None);;
  let '(user_owned, account_type) := p in
  result <- run_match_prefix account_type user_owned;;
  match result with
  | [] => log (LFail FAccountNotFound)
  | _ :: _ :: _ => log (LFail (FMultiple (username user_info)))
  | [c] =>
      if false_or_none (node_get c "owned") then
        _ <- log (LDebugQuery (RSet account_type (n_name c) "owned" true));;
        names <- run_set account_type (n_name c) "owned" true;;
        name <- first names;;
        log (LHighlightOwned name)
      else ret tt
  end.

(** The body of the [for machine_info in ...] loop of [mark_web_client_enabled]. *)
Definition webclient_loop_body (machine_info : account) : M unit :=
  _ <- bind_loopvar machine_info;;
  let distinguished_name := distinguished_name_of (acc_domain machine_info) in
  domain_query <- run_domain distinguished_name;;
  match domain_query with
  | [] =>
      _ <- log (LDebugDomainNotFound (acc_domain machine_info));;
      adjust_webclient_property_without_domain machine_info
  | d :: _ => adjust_webclient_property_with_domain machine_info (d_name d)
  end.

(** The body of the [for user_info in users_owned] loop of [add_user_bh]. *)
Definition add_user_loop_body (user_info : account) : M unit :=
  _ <- bind_loopvar user_info;;
  let distinguished_name := distinguished_name_of (acc_domain user_info) in
  domain_query <- run_domain distinguished_name;;
  match domain_query with
  | [] =>
      _ <- log (LDebugDomainNotFound (acc_domain user_info));;
      add_without_domain user_info
  | d :: _ => add_with_domain user_info (d_name d)
  end.

(** ** Connection, transaction and error dispatch *)

Record config := mkConfig {
  bh_enabled : string; bh_uri : string; bh_port : string; bh_user : string; bh_pass : string }.

(** [_initiate_bloodhound_connection(config)] *)
Definition initiate_bloodhound_connection (cfg : config) : M string := fun w =>
  let uri := "bolt://" ++ bh_uri cfg ++ ":" ++ bh_port cfg in
  match w_drvfault w with
  | Some e => (Raise e, w)
  | None => (Ok uri, with_driver w DriverOpen)
  end.

(** [driver.close()] *)
Definition close_driver : M unit := fun w => (Ok tt, with_driver w DriverClosed).

(** [with driver.session().begin_transaction() as tx: body]: the
    transaction starts from the committed graph and is committed when the
    body returns normally; when the body raises, its changes are dropped. *)
Definition with_transaction (body : M unit) : M unit :=
  _ <- request RBegin;;
  g <- (fun w => (Ok (w_graph w), w));;
  _ <- put_tx g;;
  _ <- body;;
  _ <- request RCommit;;
  fun w => (Ok tt, with_graph w (w_tx w)).

(** [try: body / except ...: handler / finally: fin] *)
Definition try_except_finally (body : M unit) (handler : exc -> M unit) (fin : M unit) : M unit :=
  fun w =>
    let '(r, w1) := body w in
    let '(r2, w2) := match r with Ok _ => (Ok tt, w1) | Raise e => handler e w1 end in
    match fin w2 with
    | (Ok _, w3) => (r2, w3)
    | (Raise e, w3) => (Raise e, w3)
    end.

(** The [except] clauses of [mark_web_client_enabled]. *)
Definition webclient_handler (cfg : config) (uri : string) (e : exc) : M unit :=
  match e with
  | ValueError => fun w =>
      match w_bound w with
      | Some machine_info => log (LFail (FNotMachine (username machine_info))) w
      | None => (Raise NameError, w)
      end
  | AuthError => log (LFail (FBadCreds (bh_user cfg) (bh_pass cfg)))
  | ServiceUnavailable => log (LFail (FUnavailable uri))
  | _ => log (LFail (FUnexpected e))
  end.

(** The [except] clauses of [add_user_bh]. *)
Definition add_user_handler (cfg : config) (uri : string) (e : exc) : M unit :=
  match e with
  | AuthError => log (LFail (FBadCreds (bh_user cfg) (bh_pass cfg)))
  | ServiceUnavailable => log (LFail (FUnavailable uri))
  | _ => log (LFail (FUnexpected e))
  end.

(** ** The public operations *)

(** The first lines of [mark_web_client_enabled] and [add_user_bh]: a
    [str] is upper-cased together with [domain]; a list is used as is. *)
Definition normalize (inp : account_input) (domain : string) : list account :=
  match inp with
  | InStr s => [mkAccount (upper s) (upper domain)]
  | InList l => l
  end.

Definition mark_web_client_enabled (machine_account : account_input) (domain : string)
  (cfg : config) : M unit :=
  let machines_where_webclient_is_enabled := normalize machine_account domain in
  if negb (String.eqb (bh_enabled cfg) "False") then
    uri <- initiate_bloodhound_connection cfg;;
    try_except_finally
      (with_transaction (for_each webclient_loop_body machines_where_webclient_is_enabled))
      (webclient_handler cfg uri)
      close_driver
  else ret tt.

Definition add_user_bh (user : account_input) (domain : string) (cfg : config) : M unit :=
  let users_owned := normalize user domain in
  if negb (String.eqb (bh_enabled cfg) "False") then
    uri <- initiate_bloodhound_connection cfg;;
    try_except_finally
      (with_transaction (for_each add_user_loop_body users_owned))
      (add_user_handler cfg uri)
      close_driver
  else ret tt.

Inductive public_op := MarkWebClientEnabled | AddUserBh.

Definition run_op (op : public_op) : account_input -> string -> config -> M unit :=
  match op with
  | MarkWebClientEnabled => mark_web_client_enabled
  | AddUserBh => add_user_bh
  end.

(** ** Observations of one call *)

(** Requests and log lines a call adds to the world. *)
Definition call_trace (op : public_op) (inp : account_input) (dom : string) (cfg : config)
  (w : world) : list req :=
  skipn (length (w_trace w)) (w_trace (snd (run_op op inp dom cfg w))).

Definition call_log (op : public_op) (inp : account_input) (dom : string) (cfg : config)
  (w : world) : list logmsg :=
  skipn (length (w_log w)) (w_log (snd (run_op op inp dom cfg w))).

(** The spec's outcome of a call on one record, read off its log lines:
    a highlight is [Updated], a not-found failure [NotFound], the
    "Multiple accounts" failure [Ambiguous], any other failure [Failed],
    and a silent call [AlreadySet]. *)
Inductive outcome :=
| Updated (name : string)
| AlreadySet
| NotFound
| Ambiguous
| Failed (m : failmsg).

Fixpoint outcome_of (l : list logmsg) : outcome :=
  match l with
  | [] => AlreadySet
  | LHighlightWebclient n :: _ | LHighlightOwned n :: _ => Updated n
  | LFail FComputerNotFound :: _ | LFail FAccountNotFound :: _ => NotFound
  | LFail (FMultiple _) :: _ => Ambiguous
  | LFail m :: _ => Failed m
  | _ :: l' => outcome_of l'
  end.

Definition is_write (r : req) : bool :=
  match r with RSet _ _ _ _ => true | _ => false end.


(** A world before any call, with a driver that never fails. *)
Definition fresh_world (g : graph) : world :=
  mkWorld g g [] [] NoDriver None (fun _ => None) None.

Definition cfg_on : config := mkConfig "True" "localhost" "7687" "neo4j" "bloodhound".
Definition cfg_off : config := mkConfig "False" "localhost" "7687" "neo4j" "bloodhound".

Definition corp_local : domnode := mkDom (Some "CORP.LOCAL") "DC=CORP,DC=LOCAL".

(** No domain node, and two computers WEB01 in two different domains. *)
Definition two_web01 : graph :=
  mkGraph [] [mkNode "Computer" "WEB01.A.LOCAL" []; mkNode "Computer" "WEB01.B.LOCAL" []].

(** CORP.LOCAL with one user ALICE whose [owned] is unset. *)
Definition corp_alice : graph :=
  mkGraph [corp_local] [mkNode "User" "ALICE@CORP.LOCAL" []].


(** Scenario 1 of the spec: "WIN10$" in an unknown domain. *)
Example scenario1 :
  call_trace MarkWebClientEnabled (InStr "WIN10$") "corp.local" cfg_on
    (fresh_world (mkGraph [] [mkNode "Computer" "WIN10.X.LOCAL" []]))
  = [RBegin; RDomain "DC=CORP,DC=LOCAL"; RMatchPrefix "Computer" "WIN10";
     RSet "Computer" "WIN10.X.LOCAL" "webclientrunning" true; RCommit].
Proof. reflexivity. Qed.

(** Scenario 2 of the spec: "alice" in the known domain CORP.LOCAL. *)
Example scenario2 :
  call_trace AddUserBh (InStr "alice") "CORP.LOCAL" cfg_on
    (fresh_world (mkGraph [corp_local] [mkNode "User" "ALICE@CORP.LOCAL" []]))
  = [RBegin; RDomain "DC=CORP,DC=LOCAL"; RMatchExact "User" "ALICE@CORP.LOCAL";
     RSet "User" "ALICE@CORP.LOCAL" "owned" true; RCommit].
Proof. reflexivity. Qed.

(** Scenario 3: already owned. *)
Example scenario3 :
  let w := fresh_world (mkGraph [corp_local] [mkNode "User" "ALICE@CORP.LOCAL" [("owned", true)]]) in
  outcome_of (call_log AddUserBh (InStr "alice") "CORP.LOCAL" cfg_on w) = AlreadySet /\
  filter is_write (call_trace AddUserBh (InStr "alice") "CORP.LOCAL" cfg_on w) = [].
Proof. split; reflexivity. Qed.

(** ** Facts about the string operations *)

Lemma upper_ascii_idem (c : ascii) : upper_ascii (upper_ascii c) = upper_ascii c.
Proof. destruct c as [[] [] [] [] [] [] [] []]; vm_compute; reflexivity. Qed.

Lemma upper_idem (s : string) : upper (upper s) = upper s.
Proof. induction s as [|c s IH]; simpl; [reflexivity | now rewrite upper_ascii_idem, IH]. Qed.

Lemma last_char_snoc (h : string) (c : ascii) : last_char (h ++ String c "") = Some c.
Proof.
  induction h as [|a h IH]; [reflexivity|].
  simpl. destruct h; [reflexivity|]. exact IH.
Qed.

Lemma drop_last_snoc (h : string) (c : ascii) : drop_last (h ++ String c "") = h.
Proof.
  induction h as [|a h IH]; [reflexivity|].
  simpl. destruct h; [reflexivity|]. simpl in *. now rewrite IH.
Qed.

Lemma last_char_some (u : string) (c : ascii) :
  last_char u = Some c -> u = drop_last u ++ String c "".
Proof.
  induction u as [|a u IH]; [discriminate|].
  destruct u as [|b u]; simpl.
  - intros H; injection H as ->; reflexivity.
  - intros H. specialize (IH H). simpl in IH. now rewrite IH at 1.
Qed.

Lemma last_char_none (u : string) : last_char u = None -> u = "".
Proof.
  induction u as [|a u IH]; [reflexivity|].
  destruct u; simpl; [discriminate|]. intros H. specialize (IH H). discriminate.
Qed.


(** ** Claims *)

(** C7: with [bh_enabled = "False"] in the configuration both public
    operations return at once and leave the world exactly as it was: no
    driver, no request, no log line. *)
Theorem disabled_is_noop (op : public_op) (inp : account_input) (dom : string) (cfg : config)
  (w : world) (Hoff : bh_enabled cfg = "False") :
  run_op op inp dom cfg w = (Ok tt, w).
Proof. destruct op; simpl; unfold mark_web_client_enabled, add_user_bh; now rewrite Hoff. Qed.

Lemma disabled_is_noop_witness :
  bh_enabled cfg_off = "False" /\
  run_op AddUserBh (InStr "alice") "CORP.LOCAL" cfg_off (fresh_world (mkGraph [] []))
  = (Ok tt, fresh_world (mkGraph [] [])).
Proof. split; [reflexivity | apply disabled_is_noop; reflexivity]. Defined.

(** C6 (as amended): for a single [str] input the call is the same,
    result and every effect, as the call with the identifier and domain
    upper-cased. *)
Theorem single_input_case_insensitive (op : public_op) (s dom : string) (cfg : config) (w : world) :
  run_op op (InStr s) dom cfg w = run_op op (InStr (upper s)) (upper dom) cfg w.
Proof.
  destruct op; simpl; unfold mark_web_client_enabled, add_user_bh, normalize;
    now rewrite !upper_idem.
Qed.

(** C6: a list input is used as it is, so a lower-case batch sends other
    requests than the same batch upper-cased. *)
Lemma batch_case_matters :
  let g := fresh_world (mkGraph [corp_local] [mkNode "User" "ALICE@CORP.LOCAL" []]) in
  call_trace AddUserBh (InList [mkAccount "alice" "corp.local"]) "" cfg_on g
  <> call_trace AddUserBh (InList [mkAccount "ALICE" "CORP.LOCAL"]) "" cfg_on g.
Proof. vm_compute. discriminate. Qed.

(** C3: [_parse_user_or_machine_account] is not total: an empty
    identifier raises [IndexError]. *)
Lemma classification_not_total :
  ~ (forall (a : account) (dom : option string), exists c, parse_user_or_machine_account a dom = Ok c).
Proof.
  intros H. destruct (H (mkAccount "" "") None) as [c Hc]. discriminate Hc.
Qed.

(** C3 (as amended): for a non-empty identifier, an identifier [h ++ "$"]
    is a Computer named [h.domain] (or [h] without a domain), any other
    identifier [u] a User named [u@domain] (or [u]). *)
Theorem classification_nonempty (a : account) (dom : option string) (Hne : username a <> "") :
  (forall h, username a = h ++ "$" ->
     parse_user_or_machine_account a dom
     = Ok (match dom with Some d => h ++ "." ++ d | None => h end, "Computer")) /\
  ((~ exists h, username a = h ++ "$") ->
     parse_user_or_machine_account a dom
     = Ok (match dom with Some d => username a ++ "@" ++ d | None => username a end, "User")).
Proof.
  unfold parse_user_or_machine_account. split.
  - intros h Hh. rewrite Hh, last_char_snoc, drop_last_snoc. reflexivity.
  - intros Hn. destruct (last_char (username a)) as [c|] eqn:Hc.
    + destruct (Ascii.eqb_spec c "$") as [->|Hd]; [|reflexivity].
      exfalso. apply Hn. exists (drop_last (username a)). now apply last_char_some.
    + exfalso. now apply Hne, last_char_none.
Qed.

Lemma classification_nonempty_witness :
  username (mkAccount "WIN10$" "") <> "" /\
  parse_user_or_machine_account (mkAccount "WIN10$" "") (Some "CORP.LOCAL")
  = Ok ("WIN10.CORP.LOCAL", "Computer").
Proof.
  split; [discriminate|].
  apply (proj1 (classification_nonempty (mkAccount "WIN10$" "") (Some "CORP.LOCAL")
                  ltac:(discriminate)) "WIN10").
  reflexivity.
Defined.

(** ** A trace-and-exception invariant for monadic code *)

Section Soundness.
Variable Q : req -> Prop.
Variable E : exc -> Prop.

(** [m] only appends requests satisfying [Q] to the trace and only
    raises exceptions satisfying [E]. *)
Definition sound {A} (m : M A) : Prop :=
  forall w, (exists delta, w_trace (snd (m w)) = (w_trace w ++ delta)%list /\ Forall Q delta) /\
            (forall e, fst (m w) = Raise e -> E e).

Lemma sound_ret {A} (a : A) : sound (ret a).
Proof. intros w; split; [exists []; rewrite app_nil_r; auto | discriminate]. Qed.

Lemma sound_raise {A} (e : exc) : E e -> @sound A (raise e).
Proof. intros He w; split; [exists []; rewrite app_nil_r; auto | intros e' H; now injection H as <-]. Qed.

(** Steps that leave the trace alone and do not raise. *)
Lemma sound_quiet {A} (m : M A) :
  (forall w, w_trace (snd (m w)) = w_trace w /\ exists a, fst (m w) = Ok a) -> sound m.
Proof.
  intros H w; destruct (H w) as [Ht [a Ha]]; split.
  - exists []; rewrite app_nil_r; auto.
  - intros e; now rewrite Ha.
Qed.

Lemma sound_bind {A B} (m : M A) (f : A -> M B) :
  sound m -> (forall a, sound (f a)) -> sound (bind m f).
Proof.
  intros Hm Hf w. unfold bind. destruct (Hm w) as [[d1 [Ht1 Hq1]] He1].
  destruct (m w) as [[a|e] w1]; simpl in *.
  - destruct (Hf a w1) as [[d2 [Ht2 Hq2]] He2]. split; [|exact He2].
    exists (d1 ++ d2)%list. rewrite Ht2, Ht1, app_assoc. split; [reflexivity|].
    apply Forall_app; auto.
  - split; [exists d1; auto | intros e' H; injection H as <-; now apply He1].
Qed.

Hypothesis HQbegin : Q RBegin.
Hypothesis HQcommit : Q RCommit.
Hypothesis HQdomain : forall dn, Q (RDomain dn).
Hypothesis HQexact : forall l nm, Q (RMatchExact l nm).
Hypothesis HQprefix : forall l pfx, Q (RMatchPrefix l pfx).
Hypothesis HEds : forall e, E (exc_of_dserr e).
Hypothesis HEindex : E IndexError.

Lemma sound_request (r : req) : Q r -> sound (request r).
Proof.
  intros Hr w. unfold request. destruct (w_faults w (length (w_trace w))); simpl;
    (split; [exists [r]; auto | intros e H; try discriminate; injection H as <-; apply HEds]).
Qed.

Lemma sound_log (m : logmsg) : sound (log m).
Proof. apply sound_quiet; intros w; split; [reflexivity | eexists; reflexivity]. Qed.

Lemma sound_get_tx : sound get_tx.
Proof. apply sound_quiet; intros w; split; [reflexivity | eexists; reflexivity]. Qed.

Lemma sound_put_tx (g : graph) : sound (put_tx g).
Proof. apply sound_quiet; intros w; split; [reflexivity | eexists; reflexivity]. Qed.



Lemma sound_first {A} (l : list A) : sound (first l).
Proof. destruct l; simpl; [apply sound_raise, HEindex | apply sound_ret]. Qed.






End Soundness.

(** The property and value each public operation writes. *)
Definition op_property (op : public_op) : string :=
  match op with MarkWebClientEnabled => "webclientrunning" | AddUserBh => "owned" end.














(** ** Evaluation with a driver that answers every request *)

Definition no_faults : nat -> option dserr := fun _ => None.

Lemma bind_ok {A B} (m : M A) (f : A -> M B) (w w' : world) (a : A) :
  m w = (Ok a, w') -> bind m f w = f a w'.
Proof. intros H. unfold bind. now rewrite H. Qed.

Lemma run_domain_ok (dn : string) (w : world) : w_faults w = no_faults ->
  run_domain dn w = (Ok (domain_query (w_tx w) dn), with_trace w (w_trace w ++ [RDomain dn])%list).
Proof. intros H. unfold run_domain, bind, request. now rewrite H. Qed.

Lemma run_match_exact_ok (l nm : string) (w : world) : w_faults w = no_faults ->
  run_match_exact l nm w
  = (Ok (match_exact (w_tx w) l nm), with_trace w (w_trace w ++ [RMatchExact l nm])%list).
Proof. intros H. unfold run_match_exact, bind, request. now rewrite H. Qed.

Lemma run_match_prefix_ok (l pfx : string) (w : world) : w_faults w = no_faults ->
  run_match_prefix l pfx w
  = (Ok (match_prefix (w_tx w) l pfx), with_trace w (w_trace w ++ [RMatchPrefix l pfx])%list).
Proof. intros H. unfold run_match_prefix, bind, request. now rewrite H. Qed.

Lemma run_set_ok (l nm p : string) (v : bool) (w : world) : w_faults w = no_faults ->
  run_set l nm p v w
  = (Ok (snd (set_exact (w_tx w) l nm p v)),
     with_tx (with_trace w (w_trace w ++ [RSet l nm p v])%list) (fst (set_exact (w_tx w) l nm p v))).
Proof. intros H. unfold run_set, bind, request. rewrite H. reflexivity. Qed.

(** Any step of the model only appends to the trace. *)
Definition ext {A} (m : M A) : Prop := sound (fun _ => True) (fun _ => True) m.

Ltac ext_auto :=
  repeat match goal with
  | |- ext _ => unfold ext
  | |- sound _ _ (bind _ _) => apply sound_bind; [|intros ?]
  | |- sound _ _ (ret _) => apply sound_ret
  | |- sound _ _ (raise _) => apply sound_raise; exact I
  | |- sound _ _ (request _) => apply sound_request; [intros; exact I | first [exact I | reflexivity]]
  | |- sound _ _ (log _) => apply sound_log
  | |- sound _ _ get_tx => apply sound_get_tx
  | |- sound _ _ (put_tx _) => apply sound_put_tx
  | |- sound _ _ (first _) => apply sound_first; exact I
  | |- sound _ _ (lift (Ok _)) => apply sound_ret
  | |- sound _ _ (run_set _ _ _ _) => unfold run_set
  | |- sound _ _ (let '(_, _) := ?p in _) => destruct p
  | |- sound _ _ (match ?x with _ => _ end) => destruct x
  | |- sound _ _ (if ?b then _ else _) => destruct b
  end.

Lemma ext_trace {A} (m : M A) (w : world) : ext m -> exists d, w_trace (snd (m w)) = (w_trace w ++ d)%list.
Proof. intros H. destruct (proj1 (H w)) as [d [Hd _]]. eauto. Qed.

(** The loop body of each public operation. *)
Definition loop_body (op : public_op) : account -> M unit :=
  match op with
  | MarkWebClientEnabled => webclient_loop_body
  | AddUserBh => add_user_loop_body
  end.

Ltac run_step Hf :=
  erewrite bind_ok; [| first [ reflexivity
                             | apply run_domain_ok; exact Hf
                             | apply run_match_exact_ok; exact Hf
                             | apply run_match_prefix_ok; exact Hf
                             | apply run_set_ok; exact Hf ] ].

Lemma parse_ok_nonempty (a : account) (dom : option string) :
  username a <> "" -> exists nm ty, parse_user_or_machine_account a dom = Ok (nm, ty).
Proof.
  intros Hne. unfold parse_user_or_machine_account.
  destruct (last_char (username a)) eqn:Hc.
  - destruct (Ascii.eqb _ _); eauto.
  - now apply last_char_none in Hc.
Qed.


Lemma sound_trace {A} (Q : req -> Prop) (m : M A) (w : world) :
  sound Q (fun _ => True) m -> exists d, w_trace (snd (m w)) = (w_trace w ++ d)%list /\ Forall Q d.
Proof. intros H. exact (proj1 (H w)). Qed.

(** The requests a loop body sends for one record with a non-empty
    identifier: the domain query, then one account match chosen by the
    domain query's answer, then only writes. *)
Lemma loop_body_requests (op : public_op) (a : account) (w : world)
  (Hf : w_faults w = no_faults) (Hne : username a <> "") :
  let dn := distinguished_name_of (acc_domain a) in
  (domain_query (w_tx w) dn = [] ->
     exists nm ty rest, parse_user_or_machine_account a None = Ok (nm, ty) /\
       w_trace (snd (loop_body op a w)) = (w_trace w ++ RDomain dn :: RMatchPrefix ty nm :: rest)%list /\
       Forall (fun r => is_write r = true) rest) /\
  (forall d ds, domain_query (w_tx w) dn = d :: ds ->
     exists nm ty rest, parse_user_or_machine_account a (d_name d) = Ok (nm, ty) /\
       w_trace (snd (loop_body op a w)) = (w_trace w ++ RDomain dn :: RMatchExact ty nm :: rest)%list /\
       Forall (fun r => is_write r = true) rest).
Proof.
  intros dn. split; [intros Hdq | intros d ds Hdq];
    [destruct (parse_ok_nonempty a None Hne) as (nm & ty & Hp)
    |destruct (parse_ok_nonempty a (d_name d) Hne) as (nm & ty & Hp)];
    exists nm, ty; destruct op; simpl loop_body;
    unfold webclient_loop_body, add_user_loop_body;
    run_step Hf; run_step Hf; cbn [w_tx with_trace with_bound]; fold dn; rewrite Hdq;
    try run_step Hf;
    unfold adjust_webclient_property_without_domain, adjust_webclient_property_with_domain,
      add_without_domain, add_with_domain;
    rewrite Hp; run_step Hf; cbv beta iota; run_step Hf;
    match goal with
    | |- exists rest, _ /\ w_trace (snd (?m ?w1)) = _ /\ _ =>
        let Hx := fresh in let d := fresh "d" in let Hd := fresh in let Hq := fresh in
        assert (Hx : sound (fun r => is_write r = true) (fun _ => True) m) by ext_auto;
        destruct (sound_trace _ m w1 Hx) as [d [Hd Hq]];
        rewrite Hd; exists d
    end;
    (split; [reflexivity | split; [cbn [w_trace with_trace with_log with_bound]; now rewrite <- !app_assoc
                                  | assumption]]).
Qed.




Lemma filter_all {A} (f : A -> bool) (l : list A) : Forall (fun x => f x = true) l -> filter f l = l.
Proof. induction 1 as [|x l Hx _ IH]; simpl; [reflexivity | now rewrite Hx, IH]. Qed.

(** C9: an empty domain gives the distinguished name "DC=", which is a
    prefix of every domain's distinguished name (all of which are of the
    form DC=...); so as soon as the graph has a domain node, a record with
    an empty domain is looked up by an exact match on its name qualified
    with the first domain node's name, and no prefix match is sent. *)
Theorem empty_domain_uses_first_domain (op : public_op) (u : string) (w : world)
  (Hf : w_faults w = no_faults) (Hne : u <> "")
  (Hdn : Forall (fun d => String.prefix "DC=" (d_dn d) = true) (g_domains (w_tx w)))
  (d : domnode) (ds : list domnode) (Hdoms : g_domains (w_tx w) = d :: ds) :
  distinguished_name_of "" = "DC=" /\
  domain_query (w_tx w) "DC=" = g_domains (w_tx w) /\
  exists nm ty rest,
    parse_user_or_machine_account (mkAccount u "") (d_name d) = Ok (nm, ty) /\
    w_trace (snd (loop_body op (mkAccount u "") w))
    = (w_trace w ++ RDomain "DC=" :: RMatchExact ty nm :: rest)%list /\
    (forall l pfx, ~ In (RMatchPrefix l pfx) rest).
Proof.
  assert (Hq : domain_query (w_tx w) "DC=" = g_domains (w_tx w)) by (apply filter_all; exact Hdn).
  split; [reflexivity|]. split; [exact Hq|].
  destruct (loop_body_requests op (mkAccount u "") w Hf Hne) as [_ H2].
  destruct (H2 d ds) as (nm & ty & rest & Hp & Ht & Hw); [change (distinguished_name_of (acc_domain (mkAccount u ""))) with "DC="; now rewrite Hq|].
  exists nm, ty, rest. split; [exact Hp|]. split; [exact Ht|].
  intros l pfx Hin. rewrite Forall_forall in Hw. discriminate (Hw _ Hin).
Qed.

Lemma empty_domain_uses_first_domain_witness :
  let w := fresh_world (mkGraph [corp_local] [mkNode "User" "ALICE@CORP.LOCAL" []]) in
  w_faults w = no_faults /\ "ALICE" <> "" /\
  Forall (fun d => String.prefix "DC=" (d_dn d) = true) (g_domains (w_tx w)) /\
  g_domains (w_tx w) = [corp_local] /\
  exists nm ty rest,
    parse_user_or_machine_account (mkAccount "ALICE" "") (d_name corp_local) = Ok (nm, ty) /\
    w_trace (snd (loop_body AddUserBh (mkAccount "ALICE" "") w))
    = (w_trace w ++ RDomain "DC=" :: RMatchExact ty nm :: rest)%list /\
    (forall l pfx, ~ In (RMatchPrefix l pfx) rest).
Proof.
  split; [reflexivity|]. split; [discriminate|]. split; [repeat constructor|]. split; [reflexivity|].
  exact (proj2 (proj2 (empty_domain_uses_first_domain AddUserBh "ALICE"
           (fresh_world (mkGraph [corp_local] [mkNode "User" "ALICE@CORP.LOCAL" []]))
           eq_refl ltac:(discriminate) ltac:(repeat constructor) corp_local [] eq_refl))).
Defined.




















(** Claim C2: on the domainless path with two prefix matches, [add_user_bh]
    reports [Ambiguous] (the "Multiple accounts" failure) and writes nothing,
    but [mark_web_client_enabled] does not: formatting the failure message
    indexes the string [webclient_enabled_machine] with ['username'], the
    resulting TypeError is caught by [except Exception], and the call logs
    "Unexpected error with Neo4J" instead. No write is issued either way. *)
Theorem webclient_ambiguity_unexpected_error :
  call_log MarkWebClientEnabled (InStr "web01$") "unknown.local" cfg_on (fresh_world two_web01)
    = [LDebugDomainNotFound "UNKNOWN.LOCAL"; LFail (FUnexpected TypeError)] /\
  outcome_of (call_log MarkWebClientEnabled (InStr "web01$") "unknown.local" cfg_on
                (fresh_world two_web01)) <> Ambiguous /\
  filter is_write (call_trace MarkWebClientEnabled (InStr "web01$") "unknown.local" cfg_on
                     (fresh_world two_web01)) = [] /\
  call_log AddUserBh (InStr "web01$") "unknown.local" cfg_on (fresh_world two_web01)
    = [LDebugDomainNotFound "UNKNOWN.LOCAL"; LFail (FMultiple "WEB01$")] /\
  outcome_of (call_log AddUserBh (InStr "web01$") "unknown.local" cfg_on
                (fresh_world two_web01)) = Ambiguous /\
  filter is_write (call_trace AddUserBh (InStr "web01$") "unknown.local" cfg_on
                     (fresh_world two_web01)) = [].
Proof.
  split; [vm_compute; reflexivity|].
  split; [vm_compute; discriminate|].
  repeat (split; [vm_compute; reflexivity|]).
  vm_compute; reflexivity.
Qed.

(** ** How the graph can change *)

(** [n'] is [n] after some updates of its property [p] to [true]: label,
    name and every other property are unchanged. *)
Definition node_evolves (p : string) (n n' : node) : Prop :=
  n_label n' = n_label n /\ n_name n' = n_name n /\
  (forall q, q <> p -> node_get n' q = node_get n q) /\
  (node_get n' p = node_get n p \/ node_get n' p = Some true).

(** [g'] is [g] after updates of property [p] to [true]: the same domain
    nodes, the same nodes in the same order, each one evolved. *)
Definition graph_evolves (p : string) (g g' : graph) : Prop :=
  g_domains g' = g_domains g /\ Forall2 (node_evolves p) (g_nodes g) (g_nodes g').

(** Log lines a loop body may write: none of the [except] clauses' ones. *)
Definition body_msg (m : logmsg) : Prop :=
  match m with
  | LFail (FNotMachine _) | LFail (FBadCreds _ _) | LFail (FUnavailable _)
  | LFail (FUnexpected _) => False
  | _ => True
  end.

Lemma node_get_set (n : node) (p q : string) (v : bool) :
  node_get (node_set n p v) q = if String.eqb p q then Some v else node_get n q.
Proof. reflexivity. Qed.

Lemma node_evolves_refl (p : string) (n : node) : node_evolves p n n.
Proof. repeat split; auto. Qed.

Lemma node_evolves_trans (p : string) (n1 n2 n3 : node) :
  node_evolves p n1 n2 -> node_evolves p n2 n3 -> node_evolves p n1 n3.
Proof.
  intros (L1 & N1 & Q1 & P1) (L2 & N2 & Q2 & P2).
  repeat split; [congruence | congruence | intros q Hq; rewrite Q2, Q1 by exact Hq; reflexivity |].
  destruct P2 as [-> | ->]; [exact P1 | now right].
Qed.

Lemma node_evolves_set (p : string) (n : node) : node_evolves p n (node_set n p true).
Proof.
  repeat split; [intros q Hq; rewrite node_get_set, (proj2 (String.eqb_neq p q) (not_eq_sym Hq)); reflexivity |].
  right. rewrite node_get_set, String.eqb_refl. reflexivity.
Qed.

Lemma graph_evolves_refl (p : string) (g : graph) : graph_evolves p g g.
Proof.
  split; [reflexivity|]. induction (g_nodes g); constructor; auto using node_evolves_refl.
Qed.

Lemma graph_evolves_trans (p : string) (g1 g2 g3 : graph) :
  graph_evolves p g1 g2 -> graph_evolves p g2 g3 -> graph_evolves p g1 g3.
Proof.
  intros [D1 F1] [D2 F2]. split; [congruence|].
  revert F2. generalize (g_nodes g3) as l3. induction F1 as [|x y l1 l2 Hxy _ IH]; intros l3 F2;
    inversion F2; subst; constructor; eauto using node_evolves_trans.
Qed.

Lemma set_exact_evolves (g : graph) (l nm p : string) :
  graph_evolves p g (fst (set_exact g l nm p true)).
Proof.
  split; [reflexivity|]. unfold set_exact; simpl.
  induction (g_nodes g) as [|n ns IH]; simpl; constructor; auto.
  destruct (is_exact l nm n); [apply node_evolves_set | apply node_evolves_refl].
Qed.

Section Steps.
(** [steps m]: every run of [m] relates the world before and the world
    after by [R], a preorder that allows sending requests and binding the
    loop variable. *)
Variable R : world -> world -> Prop.
Hypothesis R_refl : forall w, R w w.
Hypothesis R_trans : forall w1 w2 w3, R w1 w2 -> R w2 w3 -> R w1 w3.
Hypothesis R_trace : forall w t, R w (with_trace w t).
Hypothesis R_bound : forall w a, R w (with_bound w a).

Definition steps {A} (m : M A) : Prop := forall w, R w (snd (m w)).

Lemma steps_ret {A} (a : A) : steps (ret a).
Proof. intros w; apply R_refl. Qed.

Lemma steps_raise {A} (e : exc) : @steps A (raise e).
Proof. intros w; apply R_refl. Qed.

Lemma steps_lift {A} (r : result A) : steps (lift r).
Proof. intros w; apply R_refl. Qed.

Lemma steps_first {A} (l : list A) : steps (first l).
Proof. intros w; destruct l; apply R_refl. Qed.

Lemma steps_get_tx : steps get_tx.
Proof. intros w; apply R_refl. Qed.

Lemma steps_bind {A B} (m : M A) (f : A -> M B) :
  steps m -> (forall a, steps (f a)) -> steps (bind m f).
Proof.
  intros Hm Hf w. specialize (Hm w). unfold bind.
  destruct (m w) as [[a|e] w'] eqn:E; simpl in *; [eapply R_trans; [exact Hm | apply Hf] | exact Hm].
Qed.

Lemma steps_for_each {A} (f : A -> M unit) (l : list A) :
  (forall x, steps (f x)) -> steps (for_each f l).
Proof.
  intros Hf. induction l as [|x l IH]; simpl; [apply steps_ret | apply steps_bind; auto].
Qed.

Lemma steps_request (r : req) : steps (request r).
Proof. intros w; unfold request; destruct (w_faults w _); apply R_trace. Qed.

Lemma steps_bind_loopvar (a : account) : steps (bind_loopvar a).
Proof. intros w; apply R_bound. Qed.

Lemma steps_log (m : logmsg) :
  (forall w, R w (with_log w (w_log w ++ [m])%list)) -> steps (log m).
Proof. intros H w; apply H. Qed.

Lemma steps_run_set (l nm p : string) (v : bool) :
  (forall w, R w (with_tx (with_trace w (w_trace w ++ [RSet l nm p v])%list)
                          (fst (set_exact (w_tx w) l nm p v)))) ->
  steps (run_set l nm p v).
Proof.
  intros H w. unfold run_set, bind, request.
  destruct (w_faults w _); [apply R_trace | apply H].
Qed.

Local Ltac steps_step Hlog Hset :=
  match goal with
  | |- steps (bind _ _) => apply steps_bind; [|intros ?]
  | |- steps (ret _) => apply steps_ret
  | |- steps (raise _) => apply steps_raise
  | |- steps (lift _) => apply steps_lift
  | |- steps (first _) => apply steps_first
  | |- steps get_tx => apply steps_get_tx
  | |- steps (request _) => apply steps_request
  | |- steps (bind_loopvar _) => apply steps_bind_loopvar
  | |- steps (run_domain _) => unfold run_domain
  | |- steps (run_match_exact _ _) => unfold run_match_exact
  | |- steps (run_match_prefix _ _) => unfold run_match_prefix
  | |- steps (log _) => apply steps_log; intros ?; apply Hlog; exact I
  | |- steps (run_set _ _ _ _) => apply steps_run_set; intros ?; apply Hset
  | |- steps (let '(_, _) := ?p in _) => destruct p
  | |- steps (match ?x with _ => _ end) => destruct x
  | |- steps (if ?b then _ else _) => destruct b
  end.

Lemma steps_loop_body (op : public_op) (a : account)
  (Hlog : forall m w, body_msg m -> R w (with_log w (w_log w ++ [m])%list))
  (Hset : forall l nm w,
     R w (with_tx (with_trace w (w_trace w ++ [RSet l nm (op_property op) true])%list)
                  (fst (set_exact (w_tx w) l nm (op_property op) true)))) :
  steps (loop_body op a).
Proof.
  destruct op; cbn [loop_body op_property] in *;
    unfold webclient_loop_body, add_user_loop_body, adjust_webclient_property_with_domain,
      adjust_webclient_property_without_domain, add_with_domain, add_without_domain;
    repeat steps_step Hlog Hset.
Qed.
End Steps.

(** Inside the transaction the loop never touches the committed graph and
    the transaction's graph only gains the operation's property. *)
Definition tx_evolves (p : string) (w w' : world) : Prop :=
  w_graph w' = w_graph w /\ graph_evolves p (w_tx w) (w_tx w').

Lemma loop_tx_evolves (op : public_op) (l : list account) :
  steps (tx_evolves (op_property op)) (for_each (loop_body op) l).
Proof.
  assert (Ht : forall w1 w2 w3, tx_evolves (op_property op) w1 w2 -> tx_evolves (op_property op) w2 w3 ->
                 tx_evolves (op_property op) w1 w3)
    by (intros ? ? ? [G1 E1] [G2 E2]; split; [congruence | eapply graph_evolves_trans; eauto]).
  assert (Hr : forall w, tx_evolves (op_property op) w w)
    by (intros; split; [reflexivity | apply graph_evolves_refl]).
  assert (Hq : forall w w', w_graph w' = w_graph w -> w_tx w' = w_tx w -> tx_evolves (op_property op) w w')
    by (intros w w' G T; unfold tx_evolves; rewrite G, T; split; [reflexivity | apply graph_evolves_refl]).
  apply steps_for_each; try exact Hr; try exact Ht; intros a.
  apply steps_loop_body; try exact Hr; try exact Ht; try (intros; apply Hq; reflexivity).
  intros; split; [reflexivity | apply set_exact_evolves].
Qed.

(** The [except] clauses and [driver.close()] leave the graph alone. *)
Lemma handlers_keep_graph (cfg : config) (uri : string) (e : exc) (w : world) :
  w_graph (snd (webclient_handler cfg uri e w)) = w_graph w /\
  w_graph (snd (add_user_handler cfg uri e w)) = w_graph w.
Proof. destruct e; split; try reflexivity; simpl; destruct (w_bound w); reflexivity. Qed.

Lemma with_transaction_evolves (p : string) (body : M unit) (w : world) :
  steps (tx_evolves p) body ->
  graph_evolves p (w_graph w) (w_graph (snd (with_transaction body w))) /\
  (forall e, fst (with_transaction body w) = Raise e -> w_graph (snd (with_transaction body w)) = w_graph w).
Proof.
  intros Hb. unfold with_transaction, bind, request, put_tx.
  destruct (w_faults w _); [split; [apply graph_evolves_refl | reflexivity]|].
  pose proof (Hb (with_tx (with_trace w (w_trace w ++ [RBegin])%list) (w_graph w))) as [G E].
  destruct (body _) as [[u|e] w2]; cbn in G, E |- *;
    [|split; [rewrite G; apply graph_evolves_refl | intros; exact G]].
  destruct (w_faults w2 _); cbn;
    [split; [rewrite G; apply graph_evolves_refl | intros; exact G]|].
  split; [exact E | discriminate].
Qed.



Lemma parse_empty_raises (a : account) (d : option string) :
  username a = "" -> parse_user_or_machine_account a d = Raise IndexError.
Proof. intros Hu. unfold parse_user_or_machine_account. now rewrite Hu. Qed.

(** A record with an empty identifier makes its loop body raise, whatever
    the driver answers. *)
Lemma loop_body_empty_raises (op : public_op) (a : account) (w : world) :
  username a = "" -> exists e, fst (loop_body op a w) = Raise e.
Proof.
  intros Hu. destruct op; cbn [loop_body];
    unfold webclient_loop_body, add_user_loop_body, adjust_webclient_property_with_domain,
      adjust_webclient_property_without_domain, add_with_domain, add_without_domain,
      run_domain, bind, bind_loopvar, request, get_tx, ret, lift, log;
    destruct (w_faults _ _); cbn; eauto;
    destruct (domain_query _ _); rewrite !parse_empty_raises by exact Hu; cbn; eauto.
Qed.

Lemma for_each_raises {A} (f : A -> M unit) (l : list A) (a : A) :
  In a l -> (forall w, exists e, fst (f a w) = Raise e) ->
  forall w, exists e, fst (for_each f l w) = Raise e.
Proof.
  intros Hin Ha. induction l as [|x l IH]; [destruct Hin|]; intros w; cbn [for_each]; unfold bind.
  destruct Hin as [<- | Hin].
  - destruct (Ha w) as [e He]. destruct (f x w) as [[u|e'] w']; cbn in He; [discriminate|].
    exists e'; reflexivity.
  - destruct (f x w) as [[u|e'] w']; [apply IH; exact Hin | exists e'; reflexivity].
Qed.

Lemma with_transaction_raises (body : M unit) :
  (forall w, exists e, fst (body w) = Raise e) ->
  forall w, exists e, fst (with_transaction body w) = Raise e.
Proof.
  intros Hb w. unfold with_transaction, bind, request, put_tx.
  destruct (w_faults w _) as [d|]; [exists (exc_of_dserr d); reflexivity|].
  destruct (Hb (with_tx (with_trace w (w_trace w ++ [RBegin])%list) (w_graph w))) as [e He].
  destruct (body _) as [[u|e'] w2]; cbn in He; [discriminate | exists e'; reflexivity].
Qed.

(** The records of a batch share one transaction: when one record has an
    empty identifier, the whole batch is rolled back, the writes already
    made for the records before it included. *)
Theorem batch_rolled_back_on_empty_identifier (op : public_op) (l : list account) (dom : string)
  (cfg : config) (w : world) (a : account) (Hin : In a l) (Hu : username a = "") :
  w_graph (snd (run_op op (InList l) dom cfg w)) = w_graph w.
Proof.
  pose proof (fun w' => with_transaction_raises _
                (for_each_raises (loop_body op) l a Hin (fun w'' => loop_body_empty_raises op a w'' Hu)) w')
    as HR.
  pose proof (fun w' => proj2 (with_transaction_evolves _ _ w' (loop_tx_evolves op l))) as HG.
  destruct op; cbn [run_op]; unfold mark_web_client_enabled, add_user_bh;
    (destruct (negb _); [|reflexivity]);
    unfold bind at 1, initiate_bloodhound_connection;
    (destruct (w_drvfault w); [reflexivity|]);
    unfold try_except_finally; cbn [normalize];
    specialize (HR (with_driver w DriverOpen)); specialize (HG (with_driver w DriverOpen));
    cbn [loop_body] in HR, HG; destruct HR as [e HR]; specialize (HG e HR);
    destruct (with_transaction _ _) as [r w2]; cbn [fst snd] in HR, HG; subst r;
    cbv beta iota zeta; unfold close_driver; cbv beta iota;
    match goal with
    | |- context [webclient_handler ?c ?u ?e ?w'] =>
        pose proof (proj1 (handlers_keep_graph c u e w')) as K; destruct (webclient_handler c u e w')
    | |- context [add_user_handler ?c ?u ?e ?w'] =>
        pose proof (proj2 (handlers_keep_graph c u e w')) as K; destruct (add_user_handler c u e w')
    end; cbn in K |- *; rewrite K; exact HG.
Qed.












(** ** The distinguished name of a dotted domain *)

(** A DNS label: no dot and no comma. *)
Definition dns_label (l : string) : bool :=
  forallb (fun c => negb (Ascii.eqb c ".") && negb (Ascii.eqb c ",")) (list_ascii_of_string l).

Lemma str_app_assoc (a b c : string) : (a ++ b) ++ c = a ++ (b ++ c).
Proof. induction a as [|x a IH]; simpl; congruence. Qed.

Lemma str_app_nil_r (a : string) : a ++ "" = a.
Proof. induction a as [|x a IH]; simpl; congruence. Qed.


Lemma split_aux_label (l rest cur : string) :
  dns_label l = true -> split_dot_aux (l ++ rest) cur = split_dot_aux rest (cur ++ l).
Proof.
  revert cur. induction l as [|c l IH]; intros cur Hl; simpl; [now rewrite str_app_nil_r|].
  unfold dns_label in Hl; simpl in Hl. apply andb_true_iff in Hl as [Hc Hl].
  apply andb_true_iff in Hc as [Hd _]. apply negb_true_iff in Hd. rewrite Hd.
  rewrite IH by exact Hl. now rewrite str_app_assoc.
Qed.

Lemma split_dot_concat (ls : list string) :
  ls <> [] -> Forall (fun l => dns_label l = true) ls -> split_dot (String.concat "." ls) = ls.
Proof.
  unfold split_dot. induction ls as [|x ls IH]; intros Hne Hl; [congruence|].
  inversion Hl as [|? ? Hx Hls]; subst. destruct ls as [|y ys].
  - simpl. rewrite <- (str_app_nil_r x) at 1. rewrite split_aux_label by exact Hx. reflexivity.
  - change (String.concat "." (x :: y :: ys)) with (x ++ String "." (String.concat "." (y :: ys))).
    rewrite split_aux_label by exact Hx.
    assert (Hdot : forall r cur, split_dot_aux (String "." r) cur = cur :: split_dot_aux r "") by reflexivity.
    rewrite Hdot, IH by (discriminate || exact Hls). reflexivity.
Qed.

Lemma join_dc_concat (ls : list string) :
  ls <> [] ->
  fold_right append "" (map (fun dc => "DC=" ++ dc ++ ",") ls)
  = String.concat "," (map (fun l => "DC=" ++ l) ls) ++ ",".
Proof.
  induction ls as [|x ls IH]; intros Hne; [congruence|]. destruct ls as [|y ys].
  - simpl. rewrite str_app_nil_r. reflexivity.
  - change (map (fun l => "DC=" ++ l) (x :: y :: ys))
      with (("DC=" ++ x) :: map (fun l => "DC=" ++ l) (y :: ys)).
    change (String.concat "," (("DC=" ++ x) :: map (fun l => "DC=" ++ l) (y :: ys)))
      with (("DC=" ++ x) ++ "," ++ String.concat "," (map (fun l => "DC=" ++ l) (y :: ys))).
    cbn [map fold_right]. cbn [map fold_right] in IH. rewrite IH by discriminate.
    rewrite !str_app_assoc. reflexivity.
Qed.

Lemma rstrip_snoc (s : string) : rstrip_comma (s ++ ",") = rstrip_comma s.
Proof. induction s as [|c s IH]; simpl; [reflexivity | now rewrite IH]. Qed.

Lemma rstrip_id (s : string) : last_char s <> Some ","%char -> rstrip_comma s = s.
Proof.
  induction s as [|c s IH]; intros H; [reflexivity|]. destruct s as [|c' s'].
  - simpl in *. destruct (Ascii.eqb c ",") eqn:E; [apply Ascii.eqb_eq in E; congruence | reflexivity].
  - change (last_char (String c (String c' s'))) with (last_char (String c' s')) in H.
    specialize (IH H). simpl rstrip_comma. simpl rstrip_comma in IH. rewrite IH. reflexivity.
Qed.

Lemma last_char_cons_nonempty (x : ascii) (t : string) :
  t <> "" -> last_char (String x t) = last_char t.
Proof. destruct t; [congruence | reflexivity]. Qed.

Lemma last_char_app_nonempty (a b : string) : b <> "" -> last_char (a ++ b) = last_char b.
Proof.
  intros Hb. induction a as [|x a IH]; cbn [append]; [reflexivity|].
  rewrite last_char_cons_nonempty; [exact IH|]. destruct a, b; simpl; congruence.
Qed.

Lemma last_char_app (a b : string) :
  last_char (a ++ b) = match last_char b with Some c => Some c | None => last_char a end.
Proof.
  destruct b as [|cb b]; [rewrite str_app_nil_r; reflexivity|].
  rewrite last_char_app_nonempty by discriminate.
  destruct (last_char (String cb b)) eqn:E; [reflexivity|]. apply last_char_none in E. discriminate.
Qed.

Lemma last_char_in (s : string) (c : ascii) : last_char s = Some c -> In c (list_ascii_of_string s).
Proof.
  induction s as [|x s IH]; [discriminate|]. destruct s as [|y s].
  - intros H; injection H as <-; left; reflexivity.
  - intros H; right; apply IH; exact H.
Qed.

Lemma last_char_dc_concat (ls : list string) :
  ls <> [] -> Forall (fun l => dns_label l = true) ls ->
  exists c, last_char (String.concat "," (map (fun l => "DC=" ++ l) ls)) = Some c /\ c <> ","%char.
Proof.
  assert (Hdc : forall x, dns_label x = true -> exists c, last_char ("DC=" ++ x) = Some c /\ c <> ","%char).
  { intros x Hx. rewrite last_char_app. destruct (last_char x) as [c|] eqn:E; [|exists "="%char; split; [reflexivity | discriminate]].
    exists c. split; [reflexivity|]. apply last_char_in in E.
    unfold dns_label in Hx. rewrite forallb_forall in Hx. specialize (Hx c E).
    apply andb_true_iff in Hx as [_ Hx]. apply negb_true_iff in Hx. intros ->. discriminate Hx. }
  induction ls as [|x ls IH]; intros Hne Hl; [congruence|].
  inversion Hl as [|? ? Hx Hls]; subst. destruct ls as [|y ys]; [exact (Hdc x Hx)|].
  destruct (IH ltac:(discriminate) Hls) as (c & Hc & Hcc).
  exists c. split; [|exact Hcc].
  change (String.concat "," (map (fun l => "DC=" ++ l) (x :: y :: ys)))
    with (("DC=" ++ x) ++ String "," (String.concat "," (map (fun l => "DC=" ++ l) (y :: ys)))).
  rewrite last_char_app.
  change (String "," ?s) with (String "," "" ++ s). rewrite last_char_app, Hc. reflexivity.
Qed.

Lemma dn_concat (ls : list string) :
  ls <> [] -> Forall (fun l => dns_label l = true) ls ->
  distinguished_name_of (String.concat "." ls) = String.concat "," (map (fun l => "DC=" ++ l) ls).
Proof.
  intros Hne Hl. unfold distinguished_name_of.
  rewrite split_dot_concat, join_dc_concat, rstrip_snoc by assumption.
  destruct (last_char_dc_concat ls Hne Hl) as (c & Hc & Hcc).
  apply rstrip_id. rewrite Hc. congruence.
Qed.


(** [distinguished_name] of a domain made of DNS labels [l1. ... .ln] is
    [DC=l1,...,DC=ln]: the split on dots gives back the labels and the
    [rstrip(",")] removes exactly the comma after the last one. *)
Theorem distinguished_name_of_labels (ls : list string) (Hne : ls <> [])
  (Hl : Forall (fun l => dns_label l = true) ls) :
  distinguished_name_of (String.concat "." ls) = String.concat "," (map (fun l => "DC=" ++ l) ls).
Proof. exact (dn_concat ls Hne Hl). Qed.



Lemma batch_rolled_back_on_empty_identifier_witness :
  In (mkAccount "" "CORP.LOCAL") [mkAccount "ALICE" "CORP.LOCAL"; mkAccount "" "CORP.LOCAL"] /\
  username (mkAccount "" "CORP.LOCAL") = "" /\
  w_graph (snd (run_op AddUserBh (InList [mkAccount "ALICE" "CORP.LOCAL"; mkAccount "" "CORP.LOCAL"])
                  "" cfg_on (fresh_world corp_alice))) = corp_alice /\
  w_graph (snd (run_op AddUserBh (InList [mkAccount "ALICE" "CORP.LOCAL"])
                  "" cfg_on (fresh_world corp_alice))) <> corp_alice.
Proof.
  split; [right; left; reflexivity|]. split; [reflexivity|]. split.
  - exact (batch_rolled_back_on_empty_identifier AddUserBh
             [mkAccount "ALICE" "CORP.LOCAL"; mkAccount "" "CORP.LOCAL"] "" cfg_on
             (fresh_world corp_alice) (mkAccount "" "CORP.LOCAL")
             (or_intror (or_introl eq_refl)) eq_refl).
  - vm_compute. discriminate.
Defined.





Lemma distinguished_name_of_labels_witness :
  distinguished_name_of (String.concat "." ["CORP"; "LOCAL"]) = String.concat "," ["DC=CORP"; "DC=LOCAL"].
Proof.
  exact (distinguished_name_of_labels ["CORP"; "LOCAL"] ltac:(discriminate)
           ltac:(repeat constructor)).
Defined.


